(** * QSO amendment report: a shallow embedding of [qso_diff_analyzer.py]

    The script reads two revisions of a Cabrillo contest log, keeps the
    contact ("QSO:") lines of each, compares them position by position and
    prints an amendment report.  This file embeds the script's functions
    ([extract_qsos], [parse_qso], [compare_qsos] and the [__main__] block)
    and proves the properties the specification states about them, then
    further properties of the same functions and of the parts of
    [qrz_callsign_checker.py] that read a log and clean a callsign.

    Python values are modelled as follows.
    - [str] is a list of Unicode code points ([list N]); the whitespace
      class used by [str.strip()] and [str.split()] is CPython's.
    - a [list] is a Rocq list, indexed with stdpp's lookup; an index out of
      range raises [IndexError].
    - the [dict] built by [parse_qso] is an association list in insertion
      order (the order [for field in d] iterates in).
    - [print] appends one item to the standard-output stream; an exception
      aborts the rest of the computation and keeps what was printed.
    - a [set] of strings is a [gset]. *)

From Stdlib Require Import String Ascii NArith ZArith Lia Decimal.
From stdpp Require Import base list sorting gmap.

Local Open Scope nat_scope.

(** ** Strings *)

Abbreviation pystr := (list N) (only parsing).

(** A literal of the source, code point by code point (ASCII literals only;
    the arrow of the report is written out as [arrow] below). *)
Definition py (s : string) : pystr :=
  List.map N_of_ascii (list_ascii_of_string s).

(** U+2192, the arrow the report prints between old and new values. *)
Definition arrow : pystr := [8594%N].

(** [str.isspace] for one code point, as CPython's [Py_UNICODE_ISSPACE]. *)
Definition isspace (c : N) : bool :=
  ((9 <=? c) && (c <=? 13) || (28 <=? c) && (c <=? 32)
   || (c =? 133) || (c =? 160) || (c =? 5760)
   || (8192 <=? c) && (c <=? 8202)
   || (c =? 8232) || (c =? 8233) || (c =? 8239) || (c =? 8287)
   || (c =? 12288))%N.

Fixpoint lstrip (s : pystr) : pystr :=
  match s with
  | [] => []
  | c :: s' => if isspace c then lstrip s' else s
  end.

Definition rstrip (s : pystr) : pystr := rev (lstrip (rev s)).

(** [s.strip()] *)
Definition strip (s : pystr) : pystr := rstrip (lstrip s).

(** [s.startswith(p)] *)
Fixpoint startswith (s p : pystr) : bool :=
  match p, s with
  | [], _ => true
  | _ :: _, [] => false
  | a :: p', b :: s' => (a =? b)%N && startswith s' p'
  end.

(** [s.split()]: maximal runs of non-whitespace, in order.  [cur] holds the
    run being read, reversed. *)
Fixpoint split_from (cur : pystr) (s : pystr) : list pystr :=
  match s with
  | [] => match cur with [] => [] | _ => [rev cur] end
  | c :: s' =>
      if isspace c
      then match cur with
           | [] => split_from [] s'
           | _ => rev cur :: split_from [] s'
           end
      else split_from (c :: cur) s'
  end.

Definition split (s : pystr) : list pystr := split_from [] s.

(** [sep.join(items)] *)
Fixpoint join (sep : pystr) (items : list pystr) : pystr :=
  match items with
  | [] => []
  | [x] => x
  | x :: rest => x ++ sep ++ join sep rest
  end.

(** [str(n)] for a non-negative integer. *)
Fixpoint digits (u : Decimal.uint) : pystr :=
  match u with
  | Nil => []
  | D0 u => 48%N :: digits u
  | D1 u => 49%N :: digits u
  | D2 u => 50%N :: digits u
  | D3 u => 51%N :: digits u
  | D4 u => 52%N :: digits u
  | D5 u => 53%N :: digits u
  | D6 u => 54%N :: digits u
  | D7 u => 55%N :: digits u
  | D8 u => 56%N :: digits u
  | D9 u => 57%N :: digits u
  end.

Definition str_of_nat (n : nat) : pystr := digits (Nat.to_uint n).

(** The format [{n:03d}]: decimal, zero-padded on the left to width 3. *)
Definition fmt_03d (n : nat) : pystr :=
  let s := str_of_nat n in
  replicate (3 - length s) 48%N ++ s.

(** ['=' * n], ['-' * n] *)
Definition times (c : string) (n : nat) : pystr :=
  concat (replicate n (py c)).

(** ** Exceptions and output *)

Inductive exn : Type :=
  | OSError
  | IndexError
  | KeyError
  | SystemExit (code : Z).

Inductive result (A : Type) : Type :=
  | Ok (a : A)
  | Raise (e : exn).
Arguments Ok {A} a.
Arguments Raise {A} e.

Definition rbind {A B} (r : result A) (k : A -> result B) : result B :=
  match r with
  | Ok a => k a
  | Raise e => Raise e
  end.

(** A computation that prints: the items written to standard output, in
    order, and how the computation ended. *)
Definition IO (A : Type) : Type := (list pystr * result A)%type.

Definition ret {A} (a : A) : IO A := ([], Ok a).

Definition bind {A B} (m : IO A) (k : A -> IO B) : IO B :=
  match m with
  | (w, Ok a) => let '(w', r) := k a in (w ++ w', r)
  | (w, Raise e) => (w, Raise e)
  end.

Definition lift {A} (r : result A) : IO A := ([], r).

(** [print(s)]: one item on standard output (the newline that ends it is
    implicit). *)
Definition print (s : pystr) : IO unit := ([s], Ok tt).

(** [sys.exit(code)] *)
Definition sys_exit {A} (code : Z) : IO A := ([], Raise (SystemExit code)).

#[global] Instance result_ret : MRet result := @Ok.
#[global] Instance result_bind : MBind result := fun A B k r => rbind r k.
#[global] Instance IO_ret : MRet IO := @ret.
#[global] Instance IO_bind : MBind IO := fun A B k m => bind m k.

(** [l[i]] for [i >= 0]. *)
Definition index {A} (l : list A) (i : nat) : result A :=
  match l !! i with
  | Some x => Ok x
  | None => Raise IndexError
  end.

(** ** Record extractor *)

(** An extracted record: [(line_num, line)]. *)
Abbreviation rec := (nat * list N)%type (only parsing).

(** The file system as the script sees it: a path either cannot be opened
    ([None]) or yields its lines when iterated, each with its line
    terminator when it has one. *)
Abbreviation filesystem := (list N -> option (list (list N))) (only parsing).

(** [enumerate(xs, start)] *)
Fixpoint enumerate {A} (xs : list A) (start : nat) : list (nat * A) :=
  match xs with
  | [] => []
  | x :: xs' => (start, x) :: enumerate xs' (S start)
  end.

(** The loop of [extract_qsos]; [qsos] is the list being appended to. *)
Fixpoint extract_loop (items : list (nat * pystr)) (qsos : list rec)
  : list rec :=
  match items with
  | [] => qsos
  | (line_num, line) :: rest =>
      let line := strip line in
      if startswith line (py "QSO:")
      then extract_loop rest (qsos ++ [(line_num, line)])
      else extract_loop rest qsos
  end.

Definition extract_qsos (fs : filesystem) (filename : pystr)
  : result (list rec) :=
  match fs filename with
  | None => Raise OSError
  | Some f => Ok (extract_loop (enumerate f 1) [])
  end.

(** ** Record parser *)

(** The dict of [parse_qso]: keys with their values, in insertion order. *)
Abbreviation dict := (list (list N * list N)) (only parsing).

(** [d[k]] *)
Fixpoint getitem (d : dict) (k : pystr) : result pystr :=
  match d with
  | [] => Raise KeyError
  | (k', v) :: d' => if bool_decide (k' = k) then Ok v else getitem d' k
  end.

(** The keys of a dict, as [for field in d] visits them. *)
Definition keys (d : dict) : list pystr := d.*1.

Definition parse_qso (qso_line : pystr) : result (option dict) :=
  let parts := split qso_line in
  if 13 <=? length parts then
    p1 ← index parts 1;
    p2 ← index parts 2;
    p3 ← index parts 3;
    p4 ← index parts 4;
    p5 ← index parts 5;
    p6 ← index parts 6;
    p7 ← index parts 7;
    p8 ← index parts 8;
    p9 ← index parts 9;
    p10 ← index parts 10;
    p11 ← index parts 11;
    p12 ← index parts 12;
    mret (Some [ (py "freq", p1);
                 (py "mode", p2);
                 (py "date", p3);
                 (py "time", p4);
                 (py "mycall", p5);
                 (py "rst_sent", p6);
                 (py "seq_sent", p7);
                 (py "my_region", p8);
                 (py "other_call", p9);
                 (py "rst_rcvd", p10);
                 (py "seq_rcvd", p11);
                 (py "other_region", p12) ])
  else mret None.

(** ** Diff engine and report *)

(** Truth value of what [parse_qso] returned: [None] and the empty dict are
    false. *)
Definition truthy (p : option dict) : bool :=
  match p with
  | None => false
  | Some [] => false
  | Some (_ :: _) => true
  end.

(** The inner loop over the fields of [orig_parsed]; [changes] is the list
    being appended to. *)
Fixpoint changes_loop (fields : list pystr) (orig_parsed new_parsed : dict)
    (changes : list pystr) : result (list pystr) :=
  match fields with
  | [] => mret changes
  | field :: rest =>
      o ← getitem orig_parsed field;
      n ← getitem new_parsed field;
      if bool_decide (o ≠ n)
      then changes_loop rest orig_parsed new_parsed
             (changes ++ [field ++ py ": '" ++ o ++ py "' " ++ arrow
                                ++ py " '" ++ n ++ py "'"])
      else changes_loop rest orig_parsed new_parsed changes
  end.

(** The three lines that open every amendment block. *)
Definition print_amendment_header (amendment_count : nat) : IO unit :=
  print (py (String "010" "") ++ times "-" 60);;
  print (py "AMENDMENT #" ++ fmt_03d amendment_count);;
  print (times "-" 60).

(** One iteration of the loop of [compare_qsos] at index [i]; takes and
    returns [amendment_count]. *)
Definition compare_step (rev0_qsos rev4_qsos : list rec) (i : nat)
    (amendment_count : nat) : IO nat :=
  if (i <? length rev0_qsos) && (i <? length rev4_qsos) then
    '(orig_line, orig_qso) ← lift (index rev0_qsos i);
    '(new_line, new_qso) ← lift (index rev4_qsos i);
    if bool_decide (orig_qso ≠ new_qso) then
      let amendment_count := amendment_count + 1 in
      print_amendment_header amendment_count;;
      print (py "ORIGINAL (REV_0 L" ++ str_of_nat orig_line ++ py "):");;
      print (py "  " ++ orig_qso);;
      print (py "AMENDED  (REV_4 L" ++ str_of_nat new_line ++ py "):");;
      print (py "  " ++ new_qso);;
      orig_parsed ← lift (parse_qso orig_qso);
      new_parsed ← lift (parse_qso new_qso);
      (if truthy orig_parsed && truthy new_parsed then
         match orig_parsed, new_parsed with
         | Some orig_parsed, Some new_parsed =>
             changes ← lift (changes_loop (keys orig_parsed)
                                          orig_parsed new_parsed []);
             match changes with
             | [] => mret tt
             | _ :: _ => print (py "CHANGES: " ++ join (py ", ") changes)
             end
         | _, _ => mret tt
         end
       else mret tt);;
      mret amendment_count
    else mret amendment_count
  else if i <? length rev0_qsos then
    let amendment_count := amendment_count + 1 in
    '(orig_line, orig_qso) ← lift (index rev0_qsos i);
    print_amendment_header amendment_count;;
    print (py "REMOVED (REV_0 L" ++ str_of_nat orig_line ++ py "):");;
    print (py "  " ++ orig_qso);;
    mret amendment_count
  else if i <? length rev4_qsos then
    let amendment_count := amendment_count + 1 in
    '(new_line, new_qso) ← lift (index rev4_qsos i);
    print_amendment_header amendment_count;;
    print (py "ADDED (REV_4 L" ++ str_of_nat new_line ++ py "):");;
    print (py "  " ++ new_qso);;
    mret amendment_count
  else mret amendment_count.

(** [for i in indices: ...], threading [amendment_count]. *)
Fixpoint compare_loop (rev0_qsos rev4_qsos : list rec) (indices : list nat)
    (amendment_count : nat) : IO nat :=
  match indices with
  | [] => mret amendment_count
  | i :: rest =>
      amendment_count ← compare_step rev0_qsos rev4_qsos i amendment_count;
      compare_loop rev0_qsos rev4_qsos rest amendment_count
  end.

(** The part of [compare_qsos] between the banner and the summary: the
    positional comparison of the two extracted sequences.  Returns the final
    [amendment_count]. *)
Definition compare_records (rev0_qsos rev4_qsos : list rec) : IO nat :=
  let amendment_count := 0 in
  let max_len := max (length rev0_qsos) (length rev4_qsos) in
  compare_loop rev0_qsos rev4_qsos (seq 0 max_len) amendment_count.

Definition compare_qsos (fs : filesystem) (rev0_file rev4_file : pystr)
  : IO unit :=
  rev0_qsos ← lift (extract_qsos fs rev0_file);
  rev4_qsos ← lift (extract_qsos fs rev4_file);
  print (times "=" 80);;
  print (py "QSO AMENDMENT REPORT: REV_0 " ++ arrow ++ py " REV_4");;
  print (times "=" 80);;
  amendment_count ← compare_records rev0_qsos rev4_qsos;
  print (py (String "010" "") ++ times "=" 80);;
  print (py "TOTAL AMENDMENTS: " ++ str_of_nat amendment_count);;
  print (times "=" 80).

(** ** The script's entry point *)

Definition usage : pystr :=
  py "Usage: python3 qso_diff_analyzer.py rev_0.log rev_4.log".

(** The [__main__] block; [argv] is [sys.argv], program name included. *)
Definition main (fs : filesystem) (argv : list pystr) : IO unit :=
  (if negb (length argv =? 3) then
     print usage;;
     sys_exit 1
   else mret tt);;
  rev0_file ← lift (index argv 1);
  rev4_file ← lift (index argv 2);
  compare_qsos fs rev0_file rev4_file.

(** What the interpreter writes to standard error: the script itself never
    does, so the only item is the traceback of an uncaught exception. *)
Inductive stderr_item : Type :=
  | Traceback (e : exn).

Record process : Type := Process {
  stdout : list pystr;
  stderr : list stderr_item;
  status : Z
}.

(** Running the script: a normal end gives status 0, [sys.exit(code)] gives
    [code] silently, any other uncaught exception gives a traceback on
    standard error and status 1. *)
Definition run (fs : filesystem) (argv : list pystr) : process :=
  match main fs argv with
  | (out, Ok _) => Process out [] 0
  | (out, Raise (SystemExit code)) => Process out [] code
  | (out, Raise e) => Process out [Traceback e] 1
  end.

(** ** The specification's data model

    The report is described in the specification through amendment
    entries; these definitions follow its words and are compared with the
    embedding of the code below. *)

Definition field_names : list pystr :=
  [ py "freq"; py "mode"; py "date"; py "time"; py "mycall";
    py "rst_sent"; py "seq_sent"; py "my_region"; py "other_call";
    py "rst_rcvd"; py "seq_rcvd"; py "other_region" ].

(** Tokens 1 to 12 of a record text that has at least 13 tokens. *)
Definition fields_of (text : pystr) : option (list pystr) :=
  let tokens := split text in
  if bool_decide (13 ≤ length tokens)
  then Some (take 12 (drop 1 tokens))
  else None.

(** A field-level change: [(field_name, old_value, new_value)]. *)
Abbreviation change := (list N * list N * list N)%type (only parsing).

Inductive entry : Type :=
  | Modified (original revised : rec) (changes : list change)
  | Removed (original : rec)
  | Added (revised : rec).

Definition differs (c : change) : bool :=
  bool_decide (c.1.2 ≠ c.2).

(** The changes of a Modified entry: every field whose value differs, in
    field order, when both texts parse; none otherwise. *)
Definition field_changes (original revised : pystr) : list change :=
  match fields_of original, fields_of revised with
  | Some fo, Some fr => List.filter differs (zip (zip field_names fo) fr)
  | _, _ => []
  end.

(** What position [i] contributes to the diff. *)
Definition classify (original revised : list rec) (i : nat) : option entry :=
  match original !! i, revised !! i with
  | Some o, Some r =>
      if bool_decide (o.2 = r.2) then None
      else Some (Modified o r (field_changes o.2 r.2))
  | Some o, None => Some (Removed o)
  | None, Some r => Some (Added r)
  | None, None => None
  end.

Definition diff (original revised : list rec) : list entry :=
  omap (classify original revised)
       (seq 0 (max (length original) (length revised))).

Definition render_change (c : change) : pystr :=
  c.1.1 ++ py ": '" ++ c.1.2 ++ py "' " ++ arrow ++ py " '" ++ c.2 ++ py "'".

(** The block of one entry, numbered [k]. *)
Definition render_entry (k : nat) (e : entry) : list pystr :=
  [ py (String "010" "") ++ times "-" 60;
    py "AMENDMENT #" ++ fmt_03d k;
    times "-" 60 ] ++
  match e with
  | Modified o r changes =>
      [ py "ORIGINAL (REV_0 L" ++ str_of_nat o.1 ++ py "):";
        py "  " ++ o.2;
        py "AMENDED  (REV_4 L" ++ str_of_nat r.1 ++ py "):";
        py "  " ++ r.2 ] ++
      match changes with
      | [] => []
      | _ :: _ => [ py "CHANGES: " ++ join (py ", ") (render_change <$> changes) ]
      end
  | Removed o =>
      [ py "REMOVED (REV_0 L" ++ str_of_nat o.1 ++ py "):";
        py "  " ++ o.2 ]
  | Added r =>
      [ py "ADDED (REV_4 L" ++ str_of_nat r.1 ++ py "):";
        py "  " ++ r.2 ]
  end.

(** The blocks of a sequence of entries, numbered from [k]. *)
Fixpoint render_entries (k : nat) (es : list entry) : list pystr :=
  match es with
  | [] => []
  | e :: es' => render_entry k e ++ render_entries (S k) es'
  end.

(** The records the extractor keeps, stated on the lines of the file: line
    [i] (counted from 1) is kept, stripped, when its stripped text starts
    with the marker. *)
Definition qualifying (lines : list pystr) : list rec :=
  omap (λ nl : nat * pystr,
          if startswith (strip nl.2) (py "QSO:")
          then Some (nl.1, strip nl.2) else None)
       (imap (λ i line, (S i, line)) lines).

(** The whole report for a sequence of entries: banner, the blocks
    numbered from 1, and the summary with the number of entries. *)
Definition report (es : list entry) : list pystr :=
  [ times "=" 80;
    py "QSO AMENDMENT REPORT: REV_0 " ++ arrow ++ py " REV_4";
    times "=" 80 ] ++
  render_entries 1 es ++
  [ py (String "010" "") ++ times "=" 80;
    py "TOTAL AMENDMENTS: " ++ str_of_nat (length es);
    times "=" 80 ].

(** ** Example inputs *)

(** The two one-line files of the end-to-end example. *)
Definition example_rev0 : list N :=
  py "QSO: 50232 CW 2024-01-15 1200 LB4UH 599 001 14 LA5XX 599 002 14".

Definition example_rev4 : list N :=
  py "QSO: 50232 CW 2024-01-15 1200 LB4UH 599 003 14 LA5XX 599 002 14".

Definition example_fs (path : list N) : option (list (list N)) :=
  if bool_decide (path = py "rev_0.log") then Some [example_rev0 ++ [10%N]]
  else if bool_decide (path = py "rev_4.log") then Some [example_rev4 ++ [10%N]]
  else None.

(** ** The diff read in the other direction *)

(** The entry seen from the other side: original and revised exchanged,
    Added and Removed exchanged, old and new values exchanged. *)
Definition mirror (e : entry) : entry :=
  match e with
  | Modified o r changes =>
      Modified r o ((λ c : change, (c.1.1, c.2, c.1.2)) <$> changes)
  | Removed o => Added o
  | Added r => Removed r
  end.

(** The records kept from lines that are numbered from [k] on:
    [qualifying] is the case [k = 1]. *)
Definition qualifying_from (k : nat) (lines : list pystr) : list rec :=
  omap (λ nl : nat * pystr,
          if startswith (strip nl.2) (py "QSO:")
          then Some (nl.1, strip nl.2) else None)
       (imap (λ i line, (k + i, line)) lines).

(** ** The callsign checker, [qrz_callsign_checker.py]

    Its network client is outside this file; the parts embedded here are the
    ones that read a Cabrillo log and that clean a callsign before the
    lookup. *)

(** The loop of [check_callsigns_from_cabrillo] over the lines of the log;
    [callsigns] is the set being added to. *)
Fixpoint callsigns_loop (items : list (nat * pystr))
    (callsigns : gset (list N)) : result (gset (list N)) :=
  match items with
  | [] => mret callsigns
  | (line_num, line) :: rest =>
      if startswith line (py "QSO:") then
        let parts := split (strip line) in
        if 11 <=? length parts then
          worked_callsign ← index parts 9;
          callsigns_loop rest (callsigns ∪ {[ worked_callsign ]})
        else callsigns_loop rest callsigns
      else callsigns_loop rest callsigns
  end.

(** [callsigns = set()] followed by that loop over [enumerate(f, 1)]. *)
Definition cabrillo_callsigns (lines : list pystr) : result (gset (list N)) :=
  callsigns_loop (enumerate lines 1) ∅.

(** The character class [[A-Z0-9]]. *)
Definition is_upper_alnum (c : N) : bool :=
  ((65 <=? c) && (c <=? 90) || (48 <=? c) && (c <=? 57))%N.

(** The longest prefix matched by [[A-Z0-9]*], and what follows it. *)
Fixpoint alnum_run (s : pystr) : pystr * pystr :=
  match s with
  | [] => ([], [])
  | c :: s' =>
      if is_upper_alnum c
      then let '(run, rest) := alnum_run s' in (c :: run, rest)
      else ([], s)
  end.

(** Where [$] matches: at the end of the string and just before a newline
    that ends the string. *)
Definition at_dollar (s : pystr) : bool :=
  match s with
  | [] => true
  | [c] => (c =? 10)%N
  | _ => false
  end.

(** [re.sub(r'/[A-Z0-9]+$', '', s)].  A match starts at a ['/'] whose
    longest run of [[A-Z0-9]] is not empty and ends where [$] matches (a
    shorter run is followed by a character of the class, so backtracking
    finds nothing more); the text left after a match is empty or one
    newline and holds no further match. *)
Fixpoint re_sub_suffix (s : pystr) : pystr :=
  match s with
  | [] => []
  | c :: s' =>
      let '(run, rest) := alnum_run s' in
      if (c =? 47)%N && negb (bool_decide (run = [])) && at_dollar rest
      then rest
      else c :: re_sub_suffix s'
  end.

Section CaseMapping.

(** CPython's full upper-case mapping of a code point outside ASCII (one
    to three code points). *)
Variable to_upper_full : N → list N.

(** [s.upper()]: code point by code point; within ASCII, [a-z] go to
    [A-Z] and nothing else changes. *)
Definition upper_char (c : N) : pystr :=
  if (c <? 128)%N
  then [ if (97 <=? c)%N && (c <=? 122)%N then (c - 32)%N else c ]
  else to_upper_full c.

Definition upper (s : pystr) : pystr := s ≫= upper_char.

(** [clean_call] of [lookup_callsign]:
    [re.sub(r'/[A-Z0-9]+$', '', callsign.upper().strip())]. *)
Definition clean_call (callsign : pystr) : pystr :=
  re_sub_suffix (strip (upper callsign)).

End CaseMapping.

(** A line that begins with a whitespace character. *)
Definition indented (line : pystr) : bool :=
  match line with
  | [] => false
  | c :: _ => isspace c
  end.

(** * Proofs *)

Lemma ltb_length_lookup {A} (l : list A) (i : nat) :
  (i <? length l) = match l !! i with Some _ => true | None => false end.
Proof.
  destruct (l !! i) eqn:E.
  - apply Nat.ltb_lt. eapply lookup_lt_Some; eauto.
  - apply Nat.ltb_ge. by apply lookup_ge_None.
Qed.

Lemma parse_qso_fields (t : pystr) :
  parse_qso t = Ok (zip field_names <$> fields_of t).
Proof.
  unfold parse_qso, fields_of.
  destruct (Nat.leb_spec 13 (length (split t))) as [H|H].
  - rewrite bool_decide_eq_true_2 by done.
    generalize dependent (split t). intros parts H.
    do 13 (destruct parts as [|? parts]; [simpl in H; lia|]).
    reflexivity.
  - rewrite bool_decide_eq_false_2 by lia. reflexivity.
Qed.

Lemma fields_of_length (t : pystr) (f : list pystr) :
  fields_of t = Some f → length f = 12.
Proof.
  unfold fields_of. case_bool_decide as H; [|done].
  intros [= <-]. rewrite length_take, length_drop. lia.
Qed.

Lemma changes_loop_triples (cs : list (list N * list N * list N))
    (d1 d2 : list (list N * list N)) (acc : list (list N)) :
  (∀ c, c ∈ cs → getitem d1 c.1.1 = Ok c.1.2 ∧ getitem d2 c.1.1 = Ok c.2) →
  changes_loop (cs.*1.*1) d1 d2 acc
  = Ok (acc ++ (render_change <$> List.filter differs cs)).
Proof.
  revert acc. induction cs as [|c cs IH]; intros acc Hget.
  - simpl. by rewrite app_nil_r.
  - destruct (Hget c) as [H1 H2]; [left|].
    cbn [fmap list_fmap changes_loop]. rewrite H1, H2.
    cbn [mbind result_bind rbind List.filter].
    change (bool_decide (c.1.2 ≠ c.2)) with (differs c).
    destruct (differs c);
      rewrite IH by (intros; apply Hget; by right); [|done].
    cbn [fmap list_fmap]. by rewrite <- app_assoc.
Qed.

Lemma changes_loop_fields (fo fr : list (list N)) :
  length fo = 12 → length fr = 12 →
  changes_loop (keys (zip field_names fo))
               (zip field_names fo) (zip field_names fr) []
  = Ok (render_change <$> List.filter differs (zip (zip field_names fo) fr)).
Proof.
  intros Ho Hr.
  do 13 (destruct fo as [|? fo]; try discriminate Ho).
  do 13 (destruct fr as [|? fr]; try discriminate Hr).
  set (cs := zip (zip field_names _) _).
  change (keys _) with (cs.*1.*1).
  rewrite (changes_loop_triples cs _ _ []); [done|].
  intros c Hc. subst cs. cbn in Hc.
  repeat (apply elem_of_cons in Hc as [->|Hc]; [split; reflexivity|]).
  by apply elem_of_nil in Hc.
Qed.

#[local] Arguments py : simpl never.
#[local] Arguments times : simpl never.
#[local] Arguments str_of_nat : simpl never.
#[local] Arguments fmt_03d : simpl never.
#[local] Arguments join : simpl never.
#[local] Arguments arrow : simpl never.
#[local] Arguments compare_qsos : simpl never.

Lemma truthy_fields (g : list (list N)) :
  length g = 12 → truthy (Some (zip field_names g)) = true.
Proof. destruct g; [discriminate|done]. Qed.

Lemma compare_step_classify (o r : list (nat * list N)) (i c : nat) :
  compare_step o r i c
  = match classify o r i with
    | None => ([], Ok c)
    | Some e => (render_entry (c + 1) e, Ok (c + 1))
    end.
Proof.
  unfold compare_step, classify. rewrite !ltb_length_lookup. unfold index.
  destruct (o !! i) as [[lo to]|], (r !! i) as [[ln tn]|]; cbn; try done.
  case_bool_decide as Hne; case_bool_decide as Heq; try done.
  rewrite !parse_qso_fields. unfold field_changes.
  destruct (fields_of to) as [fo|] eqn:Eo, (fields_of tn) as [fr|] eqn:Er;
    cbn [fmap option_fmap option_map].
  - apply fields_of_length in Eo, Er.
    rewrite !truthy_fields, changes_loop_fields by done.
    destruct (List.filter differs _); cbn; done.
  - cbn. by rewrite andb_false_r.
  - done.
  - done.
Qed.

Lemma compare_loop_render (o r : list (nat * list N)) (indices : list nat)
    (c : nat) :
  compare_loop o r indices c
  = (render_entries (c + 1) (omap (classify o r) indices),
     Ok (c + length (omap (classify o r) indices))).
Proof.
  revert c. induction indices as [|i rest IH]; intros c.
  - cbn. by rewrite Nat.add_0_r.
  - cbn [compare_loop omap list_omap]. rewrite compare_step_classify.
    destruct (classify o r i) as [e|]; cbn; rewrite IH; cbn.
    + rewrite (Nat.add_1_r (c + 1)), <- (Nat.add_assoc c 1). done.
    + done.
Qed.

Lemma omap_none {A B} (f : A → option B) (l : list A) :
  (∀ x, x ∈ l → f x = None) → omap f l = [].
Proof.
  induction l as [|x l IH]; intros H; [done|].
  cbn. rewrite H by left. apply IH. intros; apply H; by right.
Qed.

Lemma omap_seq_lookup {B C} (f : nat → option C) (g : B → C) (e : list B)
    (a : nat) :
  (∀ j x, e !! j = Some x → f (a + j) = Some (g x)) →
  omap f (seq a (length e)) = g <$> e.
Proof.
  revert a. induction e as [|x e IH]; intros a H; [done|].
  cbn. rewrite <- (Nat.add_0_r a) at 1. rewrite (H 0 x) by done.
  f_equal. apply IH. intros j y Hj.
  replace (S a + j) with (a + S j) by lia. by apply H.
Qed.

Lemma classify_same (l : list (nat * list N)) (i : nat) :
  classify l l i = None.
Proof.
  unfold classify. destruct (l !! i); [|done].
  by rewrite bool_decide_eq_true_2.
Qed.

Lemma diff_same (l : list (nat * list N)) : diff l l = [].
Proof. apply omap_none. intros; apply classify_same. Qed.

Lemma diff_appended (o extra : list (nat * list N)) :
  diff o (o ++ extra) = Added <$> extra.
Proof.
  unfold diff. rewrite length_app, Nat.max_r by lia.
  rewrite seq_app, omap_app, omap_none.
  - cbn. apply omap_seq_lookup. intros j x Hj. unfold classify.
    rewrite lookup_ge_None_2 by lia.
    rewrite lookup_app_r by lia.
    replace (length o + j - length o) with j by lia. by rewrite Hj.
  - intros i [_ Hi]%elem_of_seq. unfold classify.
    rewrite lookup_app_l by lia.
    destruct (o !! i); [|done]. by rewrite bool_decide_eq_true_2.
Qed.

Lemma diff_truncated (o extra : list (nat * list N)) :
  diff (o ++ extra) o = Removed <$> extra.
Proof.
  unfold diff. rewrite length_app, Nat.max_l by lia.
  rewrite seq_app, omap_app, omap_none.
  - cbn. apply omap_seq_lookup. intros j x Hj. unfold classify.
    rewrite lookup_app_r by lia.
    replace (length o + j - length o) with j by lia. rewrite Hj.
    by rewrite lookup_ge_None_2 by lia.
  - intros i [_ Hi]%elem_of_seq. unfold classify.
    rewrite lookup_app_l by lia.
    destruct (o !! i); [|done]. by rewrite bool_decide_eq_true_2.
Qed.

Lemma extract_loop_qualifying (lines : list (list N)) (k : nat)
    (qsos : list (nat * list N)) :
  extract_loop (enumerate lines k) qsos
  = qsos ++ omap (λ nl : nat * list N,
                    if startswith (strip nl.2) (py "QSO:")
                    then Some (nl.1, strip nl.2) else None)
                 (imap (λ i line, (k + i, line)) lines).
Proof.
  revert k qsos. induction lines as [|line lines IH]; intros k qsos.
  - cbn. by rewrite app_nil_r.
  - cbn [enumerate extract_loop imap omap list_omap snd fst].
    rewrite (imap_ext _ (λ i line, (S k + i, line))) by (intros; cbn; f_equal; lia).
    destruct (startswith (strip line) (py "QSO:")); rewrite IH.
    + rewrite Nat.add_0_r. by rewrite <- app_assoc.
    + done.
Qed.

Lemma filter_differs_same (ks f : list (list N)) :
  List.filter differs (zip (zip ks f) f) = [].
Proof.
  revert f. induction ks as [|k ks IH]; intros [|x f]; try done.
  cbn. unfold differs at 1. cbn. rewrite bool_decide_eq_false_2 by tauto.
  apply IH.
Qed.

Lemma compare_step_modified (o r : list (nat * list N)) (i c : nat)
    (orig rev : nat * list N) :
  o !! i = Some orig → r !! i = Some rev → orig.2 ≠ rev.2 →
  compare_step o r i c
  = (render_entry (c + 1) (Modified orig rev (field_changes orig.2 rev.2)),
     Ok (c + 1)).
Proof.
  intros Ho Hr Hne. rewrite compare_step_classify. unfold classify.
  rewrite Ho, Hr. by rewrite bool_decide_eq_false_2.
Qed.

Lemma parse_qso_none (t : list N) :
  parse_qso t = Ok None → fields_of t = None.
Proof.
  rewrite parse_qso_fields. by destruct (fields_of t).
Qed.

Lemma parse_qso_same (t u : list N) (d : list (list N * list N)) :
  parse_qso t = Ok (Some d) → parse_qso u = Ok (Some d) →
  ∃ f, fields_of t = Some f ∧ fields_of u = Some f.
Proof.
  rewrite !parse_qso_fields.
  destruct (fields_of t) as [ft|] eqn:Et; [|done].
  destruct (fields_of u) as [fu|] eqn:Eu; [|done].
  cbn [fmap option_fmap option_map]. intros H1 H2.
  assert (Hz : zip field_names fu = zip field_names ft) by congruence.
  apply fields_of_length in Et, Eu.
  exists ft. split; [done|]. f_equal.
  transitivity ((zip field_names fu).*2).
  - symmetry. apply snd_zip. rewrite Eu. done.
  - rewrite Hz. apply snd_zip. rewrite Et. done.
Qed.

Lemma field_changes_unparsed (t u : list N) :
  fields_of t = None ∨ fields_of u = None → field_changes t u = [].
Proof.
  unfold field_changes. intros [-> | ->]; [done|].
  by destruct (fields_of t).
Qed.

Lemma field_changes_same (t u : list N) (f : list (list N)) :
  fields_of t = Some f → fields_of u = Some f → field_changes t u = [].
Proof.
  unfold field_changes. intros -> ->. apply filter_differs_same.
Qed.

Lemma compare_records_diff (o r : list (nat * list N)) :
  compare_records o r = (render_entries 1 (diff o r), Ok (length (diff o r))).
Proof. unfold compare_records. by rewrite compare_loop_render. Qed.

Lemma compare_qsos_report (fs : list N → option (list (list N)))
    (rev0_file rev4_file : list N) :
  compare_qsos fs rev0_file rev4_file
  = match extract_qsos fs rev0_file, extract_qsos fs rev4_file with
    | Ok rev0_qsos, Ok rev4_qsos => (report (diff rev0_qsos rev4_qsos), Ok ())
    | Raise e, _ => ([], Raise e)
    | Ok _, Raise e => ([], Raise e)
    end.
Proof.
  unfold compare_qsos.
  destruct (extract_qsos fs rev0_file) as [o|e]; [|done].
  destruct (extract_qsos fs rev4_file) as [r|e]; [|done].
  cbn. rewrite compare_records_diff. done.
Qed.

(** * The claims *)

(** C1. The diff engine is positional: for sequences [original] and
    [revised] it visits the indices [0 .. max(m,n)-1] in order and, at index
    [i], prints nothing when both records exist with equal texts, the block
    of a Modified entry when both exist and the texts differ, of a Removed
    entry when only [original[i]] exists, of an Added entry when only
    [revised[i]] exists ([classify], collected in order by [diff]); the
    blocks are numbered from 1 and the final count is the number of
    entries, which is the total the report of [compare_qsos] ends with. *)
Theorem compare_records_positional :
  (∀ original revised : list (nat * list N),
     compare_records original revised
     = (render_entries 1 (diff original revised),
        Ok (length (diff original revised))))
  ∧ (∀ (fs : list N → option (list (list N))) (rev0_file rev4_file : list N),
       compare_qsos fs rev0_file rev4_file
       = match extract_qsos fs rev0_file, extract_qsos fs rev4_file with
         | Ok original, Ok revised => (report (diff original revised), Ok ())
         | Raise e, _ => ([], Raise e)
         | Ok _, Raise e => ([], Raise e)
         end).
Proof.
  split; [apply compare_records_diff | apply compare_qsos_report].
Qed.

(** C2, as the code has it. The extractor strips each line first and keeps
    exactly the lines whose stripped text starts with the marker, each
    stored stripped and paired with its 1-based line number, in file order;
    a path that cannot be opened raises [OSError]. *)
Theorem extract_qsos_strips_then_selects
    (fs : list N → option (list (list N))) (filename : list N) :
  extract_qsos fs filename
  = match fs filename with
    | None => Raise OSError
    | Some lines => Ok (qualifying lines)
    end.
Proof.
  unfold extract_qsos, qualifying. destruct (fs filename) as [lines|]; [|done].
  by rewrite extract_loop_qualifying.
Qed.

(** C2 fails as stated: an indented line does not start with the marker
    before trimming, and the extractor keeps it all the same. *)
Lemma extract_qsos_keeps_indented_line :
  startswith (py "  QSO: 7000 CW") (py "QSO:") = false
  ∧ extract_qsos (λ _, Some [py "  QSO: 7000 CW"]) (py "rev_0.log")
    = Ok [(1, py "QSO: 7000 CW")].
Proof. split; vm_compute; reflexivity. Qed.

(** C3. The parser never raises; it returns a dict exactly when the text
    splits into at least 13 tokens, and the dict then maps the 12 field
    names, in their fixed order, to tokens 1 to 12; with fewer tokens it
    returns [None]. *)
Theorem parse_qso_positional (qso_line : list N) :
  parse_qso qso_line
  = Ok (if bool_decide (13 ≤ length (split qso_line))
        then Some (zip field_names (take 12 (drop 1 (split qso_line))))
        else None).
Proof.
  rewrite parse_qso_fields. unfold fields_of. by case_bool_decide.
Qed.

(** C4. At an aligned position where both records exist and their texts
    differ, the block of a Modified entry is printed and counted with no
    changes when either side fails to parse, and when both sides parse to
    the same fields. *)
Theorem modified_counted_without_changes
    (rev0_qsos rev4_qsos : list (nat * list N)) (i amendment_count : nat)
    (orig new : nat * list N) :
  rev0_qsos !! i = Some orig →
  rev4_qsos !! i = Some new →
  orig.2 ≠ new.2 →
  (parse_qso orig.2 = Ok None ∨ parse_qso new.2 = Ok None
   ∨ ∃ d, parse_qso orig.2 = Ok (Some d) ∧ parse_qso new.2 = Ok (Some d)) →
  compare_step rev0_qsos rev4_qsos i amendment_count
  = (render_entry (amendment_count + 1) (Modified orig new []),
     Ok (amendment_count + 1)).
Proof.
  intros Ho Hn Hne Hparse.
  rewrite (compare_step_modified _ _ _ _ orig new) by done.
  do 3 f_equal. destruct Hparse as [H|[H|(d & H1 & H2)]].
  - apply field_changes_unparsed. left. by apply parse_qso_none.
  - apply field_changes_unparsed. right. by apply parse_qso_none.
  - destruct (parse_qso_same _ _ _ H1 H2) as (f & Hf1 & Hf2).
    by apply (field_changes_same _ _ f).
Qed.

(** C4 at a whitespace-only difference. *)
Lemma modified_counted_without_changes_witness :
  compare_step
    [(1, py "QSO: 7000 CW 2024-01-15 1200 LB4UH 599 001 14 LA5XX 599 002 14")]
    [(1, py "QSO:  7000 CW 2024-01-15 1200 LB4UH 599 001 14 LA5XX 599 002 14")]
    0 0
  = (render_entry 1
       (Modified
          (1, py "QSO: 7000 CW 2024-01-15 1200 LB4UH 599 001 14 LA5XX 599 002 14")
          (1, py "QSO:  7000 CW 2024-01-15 1200 LB4UH 599 001 14 LA5XX 599 002 14")
          []),
     Ok 1).
Proof.
  apply (modified_counted_without_changes _ _ 0 0).
  - reflexivity.
  - reflexivity.
  - vm_compute. discriminate.
  - right. right. eexists. split; vm_compute; reflexivity.
Defined.

(** C5. On the example of the specification the two files extract to one
    record each, the comparison prints exactly the block of one Modified
    entry whose changes are [("seq_sent", "001", "003")] and counts 1, and
    the whole run prints the banner, that block and a total of 1. *)
Theorem end_to_end_example :
  extract_qsos example_fs (py "rev_0.log") = Ok [(1, example_rev0)]
  ∧ extract_qsos example_fs (py "rev_4.log") = Ok [(1, example_rev4)]
  ∧ compare_records [(1, example_rev0)] [(1, example_rev4)]
    = (render_entries 1
         [Modified (1, example_rev0) (1, example_rev4)
                   [(py "seq_sent", py "001", py "003")]],
       Ok 1)
  ∧ run example_fs [py "qso_diff_analyzer.py"; py "rev_0.log"; py "rev_4.log"]
    = Process
        ([ times "=" 80;
           py "QSO AMENDMENT REPORT: REV_0 " ++ arrow ++ py " REV_4";
           times "=" 80;
           py (String "010" "") ++ times "-" 60;
           py "AMENDMENT #001";
           times "-" 60;
           py "ORIGINAL (REV_0 L1):";
           py "  " ++ example_rev0;
           py "AMENDED  (REV_4 L1):";
           py "  " ++ example_rev4;
           py "CHANGES: seq_sent: '001' " ++ arrow ++ py " '003'";
           py (String "010" "") ++ times "=" 80;
           py "TOTAL AMENDMENTS: 1";
           times "=" 80 ])
        [] 0.
Proof. repeat split; vm_compute; reflexivity. Qed.

(** C6. Comparing a record sequence with itself prints no amendment block
    and counts 0. *)
Theorem compare_records_identity (qsos : list (nat * list N)) :
  compare_records qsos qsos = ([], Ok 0).
Proof. by rewrite compare_records_diff, diff_same. Qed.

(** C7. When the revised sequence is the original one followed by [k] extra
    records, the comparison prints exactly the [k] Added blocks of those
    records, numbered from 1, and counts [k]; when the last [k] records are
    removed instead, it prints exactly their [k] Removed blocks and counts
    [k]. *)
Theorem compare_records_trailing (original extra : list (nat * list N)) :
  compare_records original (original ++ extra)
  = (render_entries 1 (Added <$> extra), Ok (length extra))
  ∧ compare_records (original ++ extra) original
    = (render_entries 1 (Removed <$> extra), Ok (length extra)).
Proof.
  rewrite !compare_records_diff, diff_appended, diff_truncated.
  by rewrite !length_fmap.
Qed.

(** C8. When either input path cannot be opened, the comparison raises
    [OSError] before printing anything, and the run ends with empty
    standard output and exit status 1. *)
Theorem unreadable_file_aborts
    (fs : list N → option (list (list N))) (prog rev0_file rev4_file : list N) :
  fs rev0_file = None ∨ fs rev4_file = None →
  compare_qsos fs rev0_file rev4_file = ([], Raise OSError)
  ∧ run fs [prog; rev0_file; rev4_file]
    = Process [] [Traceback OSError] 1.
Proof.
  intros H.
  assert (Hc : compare_qsos fs rev0_file rev4_file = ([], Raise OSError)).
  { unfold compare_qsos, extract_qsos.
    destruct H as [-> | ->]; [done|].
    by destruct (fs rev0_file). }
  split; [done|]. unfold run, main. cbn. by rewrite Hc.
Qed.

(** C8 with a readable first file and a missing second file. *)
Lemma unreadable_file_aborts_witness :
  compare_qsos example_fs (py "rev_0.log") (py "missing.log")
  = ([], Raise OSError)
  ∧ run example_fs [py "qso_diff_analyzer.py"; py "rev_0.log"; py "missing.log"]
    = Process [] [Traceback OSError] 1.
Proof.
  apply (unreadable_file_aborts example_fs).
  right. vm_compute. reflexivity.
Defined.

(** C9, as the code has it. With a number of arguments other than two the
    script prints the usage text on standard output, writes nothing to
    standard error and exits with status 1; no file is read and no report
    is printed. *)
Theorem wrong_argument_count_usage
    (fs : list N → option (list (list N))) (argv : list (list N)) :
  length argv ≠ 3 →
  run fs argv = Process [usage] [] 1.
Proof.
  intros H. unfold run, main.
  rewrite (proj2 (Nat.eqb_neq _ _) H). done.
Qed.

(** C9 with no argument at all. *)
Lemma wrong_argument_count_usage_witness :
  run example_fs [py "qso_diff_analyzer.py"] = Process [usage] [] 1.
Proof.
  apply wrong_argument_count_usage. vm_compute. discriminate.
Defined.

(** C9 fails as stated: with one argument the usage text is on standard
    output and standard error stays empty. *)
Lemma usage_goes_to_stdout :
  stderr (run example_fs [py "qso_diff_analyzer.py"; py "rev_0.log"]) = []
  ∧ stdout (run example_fs [py "qso_diff_analyzer.py"; py "rev_0.log"])
    = [usage].
Proof. split; vm_compute; reflexivity. Qed.

(** C10. Tokens after position 12 play no part in the field comparison:
    when two texts have at least 13 tokens each, agree on tokens 1 to 12 and
    differ after token 12, an aligned position holding them prints the block
    of a Modified entry with no changes and counts it, and so does the
    comparison of the two records alone. *)
Theorem tokens_after_12_ignored
    (rev0_qsos rev4_qsos : list (nat * list N)) (i amendment_count : nat)
    (orig new : nat * list N) :
  rev0_qsos !! i = Some orig →
  rev4_qsos !! i = Some new →
  13 ≤ length (split orig.2) →
  13 ≤ length (split new.2) →
  take 12 (drop 1 (split orig.2)) = take 12 (drop 1 (split new.2)) →
  drop 13 (split orig.2) ≠ drop 13 (split new.2) →
  compare_step rev0_qsos rev4_qsos i amendment_count
  = (render_entry (amendment_count + 1) (Modified orig new []),
     Ok (amendment_count + 1))
  ∧ compare_records [orig] [new]
    = (render_entries 1 [Modified orig new []], Ok 1).
Proof.
  intros Ho Hn Lo Ln Hsame Hdiff.
  assert (Hne : orig.2 ≠ new.2) by congruence.
  assert (Hch : field_changes orig.2 new.2 = []).
  { apply (field_changes_same _ _ (take 12 (drop 1 (split orig.2))));
      unfold fields_of; rewrite bool_decide_eq_true_2 by done; congruence. }
  split.
  - rewrite (compare_step_modified _ _ _ _ orig new) by done. by rewrite Hch.
  - rewrite compare_records_diff. unfold diff, classify. cbn.
    rewrite bool_decide_eq_false_2 by done. by rewrite Hch.
Qed.

(** C10 on two records that differ in a fourteenth token only. *)
Lemma tokens_after_12_ignored_witness :
  compare_step [(1, example_rev0 ++ py " A")] [(1, example_rev0 ++ py " B")] 0 0
  = (render_entry 1
       (Modified (1, example_rev0 ++ py " A") (1, example_rev0 ++ py " B") []),
     Ok 1)
  ∧ compare_records [(1, example_rev0 ++ py " A")] [(1, example_rev0 ++ py " B")]
    = (render_entries 1
         [Modified (1, example_rev0 ++ py " A") (1, example_rev0 ++ py " B") []],
       Ok 1).
Proof.
  apply (tokens_after_12_ignored _ _ 0 0).
  - reflexivity.
  - reflexivity.
  - vm_compute. lia.
  - vm_compute. lia.
  - vm_compute. reflexivity.
  - vm_compute. discriminate.
Defined.

(** * Further properties of the code *)

(** ** [strip] and [split] *)

Lemma lstrip_app (a b : list N) :
  lstrip (a ++ b)
  = match lstrip a with [] => lstrip b | _ :: _ => lstrip a ++ b end.
Proof.
  induction a as [|c a IH]; [done|].
  cbn. destruct (isspace c); done.
Qed.

(** [rstrip], read from the left. *)
Lemma rstrip_cons (c : N) (s : list N) :
  rstrip (c :: s)
  = match rstrip s with
    | [] => if isspace c then [] else [c]
    | _ :: _ => c :: rstrip s
    end.
Proof.
  unfold rstrip. cbn [rev]. rewrite lstrip_app.
  destruct (lstrip (rev s)) as [|x l] eqn:E.
  - cbn. by destruct (isspace c).
  - rewrite rev_app_distr. cbn [rev app].
    destruct (rev l ++ [x]) eqn:E'; [|done].
    by destruct (rev l).
Qed.

Lemma rstrip_nil : rstrip [] = [].
Proof. done. Qed.

Lemma lstrip_fixed (s : list N) :
  head s ≫= (λ c, if isspace c then None else Some c) = head s →
  lstrip s = s.
Proof. destruct s as [|c s]; [done|]. cbn. by destruct (isspace c). Qed.

Lemma split_from_lstrip (s : list N) :
  split_from [] (lstrip s) = split_from [] s.
Proof.
  induction s as [|c s IH]; [done|].
  cbn. destruct (isspace c) eqn:E; [done|]. cbn. by rewrite E.
Qed.

Lemma split_from_rstrip (cur s : list N) :
  split_from cur (rstrip s) = split_from cur s.
Proof.
  revert cur. induction s as [|c s IH]; intros cur; [done|].
  rewrite rstrip_cons. cbn [split_from].
  destruct (isspace c) eqn:E.
  - rewrite <- (IH []). destruct (rstrip s) eqn:Er.
    + cbn. by destruct cur.
    + cbn [split_from]. by rewrite E.
  - rewrite <- (IH (c :: cur)). destruct (rstrip s) eqn:Er.
    + cbn [split_from]. by rewrite E.
    + cbn [split_from]. by rewrite E.
Qed.

Lemma split_strip (s : list N) : split (strip s) = split s.
Proof.
  unfold split, strip. by rewrite split_from_rstrip, split_from_lstrip.
Qed.

Lemma lstrip_idem (s : list N) : lstrip (lstrip s) = lstrip s.
Proof.
  induction s as [|c s IH]; [done|].
  cbn. destruct (isspace c) eqn:E; [done|]. cbn. by rewrite E.
Qed.

Lemma rstrip_idem (s : list N) : rstrip (rstrip s) = rstrip s.
Proof. unfold rstrip. by rewrite rev_involutive, lstrip_idem. Qed.

Lemma lstrip_strip (s : list N) : lstrip (strip s) = strip s.
Proof.
  unfold strip. induction s as [|c s IH]; [done|].
  cbn [lstrip]. destruct (isspace c) eqn:E; [done|].
  rewrite rstrip_cons. destruct (rstrip s); rewrite ?E; cbn; by rewrite ?E.
Qed.

Lemma strip_idem (s : list N) : strip (strip s) = strip s.
Proof.
  unfold strip at 1. rewrite lstrip_strip. unfold strip. apply rstrip_idem.
Qed.

(** ** The extractor, line by line *)

Lemma qualifying_from_1 (lines : list (list N)) :
  qualifying lines = qualifying_from 1 lines.
Proof. done. Qed.

Lemma qualifying_from_cons (k : nat) (line : list N) (lines : list (list N)) :
  qualifying_from k (line :: lines)
  = (if startswith (strip line) (py "QSO:") then [(k, strip line)] else [])
    ++ qualifying_from (S k) lines.
Proof.
  unfold qualifying_from. cbn [imap omap list_omap fst snd].
  rewrite Nat.add_0_r.
  rewrite (imap_ext _ (λ i l, (S k + i, l))) by (intros; cbn; f_equal; lia).
  by destruct (startswith (strip line) (py "QSO:")).
Qed.

Lemma qualifying_from_app (k : nat) (a b : list (list N)) :
  qualifying_from k (a ++ b)
  = qualifying_from k a ++ qualifying_from (k + length a) b.
Proof.
  revert k. induction a as [|line a IH]; intros k.
  - cbn. by rewrite Nat.add_0_r.
  - cbn [app length]. rewrite !qualifying_from_cons, IH, <- app_assoc.
    by replace (S k + length a) with (k + S (length a)) by lia.
Qed.

Lemma qualifying_from_texts (k : nat) (lines : list (list N)) :
  (qualifying_from k lines).*2
  = List.filter (λ t, startswith t (py "QSO:")) (strip <$> lines).
Proof.
  revert k. induction lines as [|line lines IH]; intros k; [done|].
  rewrite qualifying_from_cons, fmap_app, IH. cbn [fmap list_fmap List.filter].
  by destruct (startswith (strip line) (py "QSO:")).
Qed.

Lemma qualifying_from_wellformed (k : nat) (lines : list (list N)) :
  Forall (λ q : nat * list N,
            strip q.2 = q.2 ∧ startswith q.2 (py "QSO:") = true)
         (qualifying_from k lines).
Proof.
  revert k. induction lines as [|line lines IH]; intros k.
  - constructor.
  - rewrite qualifying_from_cons. apply Forall_app. split; [|apply IH].
    destruct (startswith (strip line) (py "QSO:")) eqn:E; constructor;
      [|constructor].
    split; [apply strip_idem | done].
Qed.

Lemma qualifying_from_numbers (k : nat) (lines : list (list N)) :
  StronglySorted lt (qualifying_from k lines).*1
  ∧ Forall (λ n, k ≤ n < k + length lines) (qualifying_from k lines).*1.
Proof.
  revert k. induction lines as [|line lines IH]; intros k.
  - split; constructor.
  - rewrite qualifying_from_cons. destruct (IH (S k)) as [Hs Hr].
    assert (Hr' : Forall (λ n, k ≤ n < k + length (line :: lines))
                         (qualifying_from (S k) lines).*1).
    { eapply Forall_impl; [exact Hr|]. cbn. intros; lia. }
    destruct (startswith (strip line) (py "QSO:")); cbn [app fmap list_fmap fst].
    + split.
      * constructor; [done|]. eapply Forall_impl; [exact Hr|]. cbn. intros; lia.
      * constructor; [cbn; lia | done].
    + done.
Qed.

(** ** The diff, record by record *)

Lemma diff_nil_l (r : list (nat * list N)) : diff [] r = Added <$> r.
Proof. apply (diff_appended [] r). Qed.

Lemma diff_nil_r (o : list (nat * list N)) : diff o [] = Removed <$> o.
Proof. apply (diff_truncated [] o). Qed.

Lemma diff_cons (a b : nat * list N) (o r : list (nat * list N)) :
  diff (a :: o) (b :: r)
  = (if bool_decide (a.2 = b.2) then []
     else [Modified a b (field_changes a.2 b.2)])
    ++ diff o r.
Proof.
  unfold diff. cbn [length]. rewrite <- Nat.succ_max_distr.
  cbn [seq omap list_omap]. rewrite <- fmap_S_seq.
  assert (Hshift : omap (classify (a :: o) (b :: r))
                        (S <$> seq 0 (length o `max` length r))
                   = omap (classify o r) (seq 0 (length o `max` length r))).
  { generalize (seq 0 (length o `max` length r)). intros l.
    induction l as [|i l IH]; [done|]. cbn. by rewrite IH. }
  rewrite Hshift. unfold classify at 1. cbn.
  by case_bool_decide.
Qed.

Lemma diff_length_bounds (o r : list (nat * list N)) :
  length o `max` length r - length o `min` length r ≤ length (diff o r)
  ∧ length (diff o r) ≤ length o `max` length r.
Proof.
  revert r. induction o as [|a o IH]; intros [|b r].
  - cbn. lia.
  - rewrite diff_nil_l, length_fmap. cbn. lia.
  - rewrite diff_nil_r, length_fmap. cbn. lia.
  - rewrite diff_cons, length_app. destruct (IH r) as [H1 H2].
    case_bool_decide; cbn [length]; lia.
Qed.

Lemma diff_nil_iff (o r : list (nat * list N)) :
  diff o r = [] ↔ o.*2 = r.*2.
Proof.
  revert r. induction o as [|a o IH]; intros [|b r].
  - done.
  - rewrite diff_nil_l. done.
  - rewrite diff_nil_r. done.
  - rewrite diff_cons. cbn [fmap list_fmap]. case_bool_decide as Hab.
    + cbn [app]. rewrite IH. split; [intros ->; by rewrite Hab|].
      by intros [= _ ?].
    + split; [done|]. by intros [= ? _].
Qed.

Lemma filter_differs_mirror (ks fo fr : list (list N)) :
  List.filter differs (zip (zip ks fr) fo)
  = (λ c : list N * list N * list N, (c.1.1, c.2, c.1.2))
      <$> List.filter differs (zip (zip ks fo) fr).
Proof.
  revert fo fr. induction ks as [|k ks IH]; intros [|x fo] [|y fr]; try done.
  cbn [zip zip_with List.filter]. rewrite IH.
  assert (Hsw : differs (k, y, x) = differs (k, x, y)).
  { unfold differs. cbn. apply bool_decide_ext. split; congruence. }
  rewrite Hsw. by destruct (differs (k, x, y)).
Qed.

Lemma field_changes_mirror (t u : list N) :
  field_changes u t
  = (λ c : list N * list N * list N, (c.1.1, c.2, c.1.2))
      <$> field_changes t u.
Proof.
  unfold field_changes.
  destruct (fields_of t), (fields_of u); try done.
  apply filter_differs_mirror.
Qed.

Lemma diff_mirror (o r : list (nat * list N)) :
  diff r o = mirror <$> diff o r.
Proof.
  revert r. induction o as [|a o IH]; intros [|b r].
  - done.
  - rewrite diff_nil_l, diff_nil_r, <- list_fmap_compose. done.
  - rewrite diff_nil_l, diff_nil_r, <- list_fmap_compose. done.
  - rewrite !diff_cons, fmap_app, IH. f_equal.
    destruct (decide (a.2 = b.2)) as [E|E].
    + by rewrite !bool_decide_eq_true_2.
    + rewrite !bool_decide_eq_false_2 by congruence.
      cbn. by rewrite field_changes_mirror.
Qed.

Lemma split_from_tokens (cur s : list N) :
  Forall (λ c, isspace c = false) cur →
  Forall (λ t : list N, t ≠ [] ∧ Forall (λ c, isspace c = false) t)
         (split_from cur s).
Proof.
  revert cur. induction s as [|c s IH]; intros cur Hcur.
  - cbn. destruct cur as [|x cur]; constructor; [|constructor].
    split; [|by apply Forall_rev].
    intros E. apply (f_equal (@length N)) in E.
    rewrite length_rev in E. done.
  - cbn. destruct (isspace c) eqn:E.
    + destruct cur as [|x cur]; [by apply IH|].
      constructor; [|by apply IH]. split; [|by apply Forall_rev].
      intros E'. apply (f_equal (@length N)) in E'.
      rewrite length_rev in E'. done.
    + apply IH. by constructor.
Qed.

Lemma filter_differs_single (ks pre post : list (list N)) (a b name : list N) :
  ks !! length pre = Some name → a ≠ b →
  List.filter differs (zip (zip ks (pre ++ a :: post)) (pre ++ b :: post))
  = [(name, a, b)].
Proof.
  revert ks. induction pre as [|x pre IH]; intros [|k ks] Hk Hab; try done.
  - cbn in Hk. injection Hk as ->. cbn [app zip zip_with List.filter].
    unfold differs at 1. cbn. rewrite bool_decide_eq_true_2 by done.
    by rewrite filter_differs_same.
  - cbn [app zip zip_with List.filter]. unfold differs at 1. cbn.
    rewrite bool_decide_eq_false_2 by tauto. by apply IH.
Qed.

Lemma omap_length_le {A B} (f : A → option B) (l : list A) :
  length (omap f l) ≤ length l.
Proof.
  induction l as [|x l IH]; [done|].
  cbn. destruct (f x); cbn; lia.
Qed.

Lemma take_12_fields {A} (pre post rest : list A) (a : A) :
  length pre + S (length post) = 12 →
  take 12 (pre ++ a :: post ++ rest) = pre ++ a :: post.
Proof.
  intros H.
  replace (pre ++ a :: post ++ rest) with ((pre ++ a :: post) ++ rest)
    by (by rewrite <- app_assoc).
  apply take_app_length'. rewrite length_app. cbn. lia.
Qed.

(** ** Properties of the extractor *)

(** Every record the extractor returns holds a text that is already
    stripped and that starts with the marker. *)
Theorem extracted_texts_stripped
    (fs : list N → option (list (list N))) (filename : list N)
    (lines : list (list N)) :
  fs filename = Some lines →
  ∃ qsos, extract_qsos fs filename = Ok qsos
          ∧ Forall (λ q : nat * list N,
                      strip q.2 = q.2 ∧ startswith q.2 (py "QSO:") = true)
                   qsos.
Proof.
  intros H. exists (qualifying lines). split.
  - unfold extract_qsos. rewrite H. unfold qualifying.
    by rewrite extract_loop_qualifying.
  - rewrite qualifying_from_1. apply qualifying_from_wellformed.
Qed.

Lemma extracted_texts_stripped_witness :
  ∃ qsos, extract_qsos example_fs (py "rev_0.log") = Ok qsos
          ∧ Forall (λ q : nat * list N,
                      strip q.2 = q.2 ∧ startswith q.2 (py "QSO:") = true)
                   qsos.
Proof.
  apply (extracted_texts_stripped example_fs (py "rev_0.log")
           [example_rev0 ++ [10%N]]).
  vm_compute. reflexivity.
Defined.

(** The line numbers of the extracted records are strictly increasing and
    lie between 1 and the number of lines of the file, so there are never
    more records than lines. *)
Theorem extracted_line_numbers_increase
    (fs : list N → option (list (list N))) (filename : list N)
    (lines : list (list N)) :
  fs filename = Some lines →
  ∃ qsos, extract_qsos fs filename = Ok qsos
          ∧ StronglySorted lt qsos.*1
          ∧ Forall (λ n, 1 ≤ n ≤ length lines) qsos.*1
          ∧ length qsos ≤ length lines.
Proof.
  intros H. exists (qualifying lines). split.
  { unfold extract_qsos. rewrite H. unfold qualifying.
    by rewrite extract_loop_qualifying. }
  rewrite qualifying_from_1.
  destruct (qualifying_from_numbers 1 lines) as [Hs Hr].
  split; [done|]. split.
  - eapply Forall_impl; [exact Hr|]. cbn. intros; lia.
  - unfold qualifying_from. etrans; [apply omap_length_le|].
    by rewrite length_imap.
Qed.

Lemma extracted_line_numbers_increase_witness :
  ∃ qsos, extract_qsos example_fs (py "rev_4.log") = Ok qsos
          ∧ StronglySorted lt qsos.*1
          ∧ Forall (λ n, 1 ≤ n ≤ 1) qsos.*1
          ∧ length qsos ≤ 1.
Proof.
  apply (extracted_line_numbers_increase example_fs (py "rev_4.log")
           [example_rev4 ++ [10%N]]).
  vm_compute. reflexivity.
Defined.

(** ** Properties of the parser *)

(** Whitespace around a record text plays no part in parsing: the parser
    gives the same result on a text and on the text stripped. *)
Theorem parse_qso_ignores_surrounding_whitespace (qso_line : list N) :
  parse_qso (strip qso_line) = parse_qso qso_line.
Proof. unfold parse_qso. by rewrite split_strip. Qed.

(** When the parser returns a dict, its keys are the 12 field names, in
    order, each of them can be read without [KeyError], and every value is
    a non-empty token free of whitespace. *)
Theorem parse_qso_dict_shape (qso_line : list N) (d : list (list N * list N)) :
  parse_qso qso_line = Ok (Some d) →
  keys d = field_names
  ∧ Forall (λ field, ∃ v, getitem d field = Ok v) field_names
  ∧ Forall (λ v : list N, v ≠ [] ∧ Forall (λ c, isspace c = false) v) d.*2.
Proof.
  rewrite parse_qso_fields.
  destruct (fields_of qso_line) as [f|] eqn:Ef; [|done].
  cbn [fmap option_fmap option_map]. intros Hd.
  assert (d = zip field_names f) as -> by congruence. clear Hd.
  assert (Hlen : length f = 12) by (by apply fields_of_length in Ef).
  assert (Hval : Forall (λ v : list N,
                           v ≠ [] ∧ Forall (λ c, isspace c = false) v) f).
  { unfold fields_of in Ef. case_bool_decide; [|done].
    injection Ef as <-. apply Forall_take, Forall_drop.
    by apply split_from_tokens. }
  split; [|split].
  - unfold keys. apply fst_zip. rewrite Hlen. done.
  - clear Hval Ef.
    do 13 (destruct f as [|? f]; try discriminate Hlen).
    repeat (constructor; [eexists; reflexivity|]). constructor.
  - rewrite snd_zip; [done|]. rewrite Hlen. done.
Qed.

Lemma parse_qso_dict_shape_witness :
  keys (zip field_names (take 12 (drop 1 (split example_rev0)))) = field_names
  ∧ Forall (λ field,
              ∃ v, getitem (zip field_names
                              (take 12 (drop 1 (split example_rev0)))) field
                   = Ok v)
           field_names
  ∧ Forall (λ v : list N, v ≠ [] ∧ Forall (λ c, isspace c = false) v)
           (zip field_names (take 12 (drop 1 (split example_rev0)))).*2.
Proof.
  apply (parse_qso_dict_shape example_rev0).
  vm_compute. reflexivity.
Defined.

(** ** Properties of the comparison *)

(** The comparison reports no amendment exactly when the two sequences hold
    the same texts in the same order; the line numbers play no part. *)
Theorem no_amendment_iff_same_texts (rev0_qsos rev4_qsos : list (nat * list N)) :
  compare_records rev0_qsos rev4_qsos = ([], Ok 0)
  ↔ rev0_qsos.*2 = rev4_qsos.*2.
Proof.
  rewrite compare_records_diff, <- diff_nil_iff. split.
  - intros [= _ H]. by destruct (diff rev0_qsos rev4_qsos).
  - by intros ->.
Qed.

(** The comparison never raises, and the number of amendments lies between
    the difference of the two lengths and the larger length. *)
Theorem amendment_count_bounds (rev0_qsos rev4_qsos : list (nat * list N)) :
  ∃ out n,
    compare_records rev0_qsos rev4_qsos = (out, Ok n)
    ∧ length rev0_qsos `max` length rev4_qsos
      - length rev0_qsos `min` length rev4_qsos ≤ n
    ∧ n ≤ length rev0_qsos `max` length rev4_qsos.
Proof.
  eexists _, _. split; [apply compare_records_diff|].
  apply diff_length_bounds.
Qed.

(** Exchanging the two revisions gives the same number of amendments, and
    the mirrored blocks: Added and Removed exchanged, original and revised
    records exchanged, old and new values exchanged. *)
Theorem compare_records_exchanged (rev0_qsos rev4_qsos : list (nat * list N)) :
  compare_records rev4_qsos rev0_qsos
  = (render_entries 1 (mirror <$> diff rev0_qsos rev4_qsos),
     (compare_records rev0_qsos rev4_qsos).2).
Proof.
  rewrite !compare_records_diff, diff_mirror. cbn. by rewrite length_fmap.
Qed.

(** When exactly one of the 12 fields differs between two records that both
    parse, the block printed is that of a Modified entry with the one change
    of that field. *)
Theorem single_field_change
    (rev0_qsos rev4_qsos : list (nat * list N)) (i amendment_count : nat)
    (orig new : nat * list N)
    (kw kw' a b name : list N) (pre post rest rest' : list (list N)) :
  rev0_qsos !! i = Some orig →
  rev4_qsos !! i = Some new →
  split orig.2 = kw :: pre ++ a :: post ++ rest →
  split new.2 = kw' :: pre ++ b :: post ++ rest' →
  length pre + S (length post) = 12 →
  field_names !! length pre = Some name →
  a ≠ b →
  compare_step rev0_qsos rev4_qsos i amendment_count
  = (render_entry (amendment_count + 1) (Modified orig new [(name, a, b)]),
     Ok (amendment_count + 1)).
Proof.
  intros Ho Hn So Sn Hlen Hname Hab.
  assert (Hne : orig.2 ≠ new.2).
  { intros E. rewrite E, Sn in So. injection So as _ So.
    apply app_inv_head in So. by injection So. }
  rewrite (compare_step_modified _ _ _ _ orig new) by done.
  do 3 f_equal. unfold field_changes, fields_of. rewrite So, Sn.
  rewrite !bool_decide_eq_true_2
    by (cbn [length]; rewrite length_app; cbn [length];
        rewrite length_app; lia).
  cbn [drop]. rewrite !drop_0, !take_12_fields by done.
  by apply filter_differs_single.
Qed.

Lemma single_field_change_witness :
  compare_step [(1, example_rev0)] [(1, example_rev4)] 0 0
  = (render_entry 1
       (Modified (1, example_rev0) (1, example_rev4)
                 [(py "seq_sent", py "001", py "003")]),
     Ok 1).
Proof.
  apply (single_field_change _ _ 0 0 _ _ (py "QSO:") (py "QSO:") _ _ _
           [py "50232"; py "CW"; py "2024-01-15"; py "1200"; py "LB4UH";
            py "599"]
           [py "14"; py "LA5XX"; py "599"; py "002"; py "14"] [] []).
  - reflexivity.
  - reflexivity.
  - vm_compute. reflexivity.
  - vm_compute. reflexivity.
  - reflexivity.
  - reflexivity.
  - vm_compute. discriminate.
Defined.

(** ** Properties of a whole run *)

Lemma extract_qsos_readable (fs : list N → option (list (list N)))
    (filename : list N) (lines : list (list N)) :
  fs filename = Some lines →
  extract_qsos fs filename = Ok (qualifying lines).
Proof.
  intros H. unfold extract_qsos. rewrite H. unfold qualifying.
  by rewrite extract_loop_qualifying.
Qed.

(** Only the stripped texts of the contact lines matter: when two readable
    files give the same sequence of them, the report holds no amendment,
    whatever their other lines, indentation, trailing whitespace and line
    terminators are. *)
Theorem same_contact_texts_no_amendment
    (fs : list N → option (list (list N))) (rev0_file rev4_file : list N)
    (lines0 lines4 : list (list N)) :
  fs rev0_file = Some lines0 →
  fs rev4_file = Some lines4 →
  List.filter (λ t, startswith t (py "QSO:")) (strip <$> lines0)
  = List.filter (λ t, startswith t (py "QSO:")) (strip <$> lines4) →
  compare_qsos fs rev0_file rev4_file = (report [], Ok ()).
Proof.
  intros H0 H4 Hsame.
  rewrite compare_qsos_report.
  rewrite (extract_qsos_readable _ _ _ H0), (extract_qsos_readable _ _ _ H4).
  replace (diff (qualifying lines0) (qualifying lines4)) with (@nil entry);
    [done|].
  symmetry. apply diff_nil_iff.
  rewrite (qualifying_from_1 lines0), (qualifying_from_1 lines4).
  rewrite !qualifying_from_texts. exact Hsame.
Qed.

(** A revision that differs from the example by a comment line, an
    indentation and a different line terminator. *)
Lemma same_contact_texts_no_amendment_witness :
  compare_qsos
    (λ path, if bool_decide (path = py "rev_0.log")
             then Some [example_rev0 ++ [10%N]]
             else Some [py "X-NOTE: checked" ++ [13%N; 10%N];
                        py "  " ++ example_rev0 ++ [13%N; 10%N]])
    (py "rev_0.log") (py "rev_4.log")
  = (report [], Ok ()).
Proof.
  eapply same_contact_texts_no_amendment.
  - vm_compute. reflexivity.
  - vm_compute. reflexivity.
  - vm_compute. reflexivity.
Defined.

(** Lines appended to a file become Added entries, numbered by their place
    in the revised file: when the revised file is the original one followed
    by further lines, the report is exactly the Added blocks of the contact
    lines among them. *)
Theorem appended_lines_are_added
    (fs : list N → option (list (list N))) (rev0_file rev4_file : list N)
    (lines extra : list (list N)) :
  fs rev0_file = Some lines →
  fs rev4_file = Some (lines ++ extra) →
  compare_qsos fs rev0_file rev4_file
  = (report (Added <$> qualifying_from (S (length lines)) extra), Ok ()).
Proof.
  intros H0 H4. rewrite compare_qsos_report.
  rewrite (extract_qsos_readable _ _ _ H0), (extract_qsos_readable _ _ _ H4).
  rewrite (qualifying_from_1 (lines ++ extra)), qualifying_from_app.
  change (qualifying_from 1 lines) with (qualifying lines).
  by rewrite diff_appended.
Qed.

Lemma appended_lines_are_added_witness :
  compare_qsos
    (λ path, if bool_decide (path = py "rev_0.log")
             then Some [example_rev0 ++ [10%N]]
             else Some ([example_rev0 ++ [10%N]]
                        ++ [py "X-NOTE: late entry" ++ [10%N];
                            example_rev4 ++ [10%N]]))
    (py "rev_0.log") (py "rev_4.log")
  = (report (Added <$> [(3, example_rev4)]), Ok ()).
Proof.
  apply (appended_lines_are_added _ (py "rev_0.log") (py "rev_4.log")
           [example_rev0 ++ [10%N]]
           [py "X-NOTE: late entry" ++ [10%N]; example_rev4 ++ [10%N]]).
  - vm_compute. reflexivity.
  - vm_compute. reflexivity.
Defined.


(** ** The callsign checker: collecting the worked callsigns *)

Lemma elem_of_enumerate {A} (xs : list A) (k n : nat) (x : A) :
  (n, x) ∈ enumerate xs k ↔ ∃ j, n = k + j ∧ xs !! j = Some x.
Proof.
  revert k. induction xs as [|y xs IH]; intros k.
  - cbn. split; [by intros ?%elem_of_nil | by intros (j & _ & ?)].
  - cbn [enumerate]. rewrite elem_of_cons, IH. split.
    + intros [[= -> ->] | (j & -> & Hj)].
      * exists 0. split; [lia | done].
      * exists (S j). split; [lia | done].
    + intros ([|j] & -> & Hj).
      * left. injection Hj as ->. f_equal. lia.
      * right. exists j. split; [lia | done].
Qed.

Lemma callsigns_loop_spec (items : list (nat * list N))
    (callsigns : gset (list N)) :
  ∃ found, callsigns_loop items callsigns = Ok found
    ∧ ∀ c, c ∈ found ↔
           c ∈ callsigns
           ∨ ∃ nl : nat * list N,
               nl ∈ items ∧ startswith nl.2 (py "QSO:") = true
               ∧ 11 ≤ length (split nl.2) ∧ split nl.2 !! 9 = Some c.
Proof.
  revert callsigns. induction items as [|[n line] items IH]; intros callsigns.
  - exists callsigns. split; [done|]. intros c. split; [by left|].
    intros [H | (nl & H%elem_of_nil & _)]; done.
  - cbn [callsigns_loop]. rewrite split_strip.
    assert (Hskip : ∀ found : gset (list N),
      (startswith line (py "QSO:") = false ∨ length (split line) < 11) →
      (∀ c, c ∈ found ↔
            c ∈ callsigns
            ∨ ∃ nl : nat * list N,
                nl ∈ items ∧ startswith nl.2 (py "QSO:") = true
                ∧ 11 ≤ length (split nl.2) ∧ split nl.2 !! 9 = Some c) →
      ∀ c, c ∈ found ↔
           c ∈ callsigns
           ∨ ∃ nl : nat * list N,
               nl ∈ (n, line) :: items ∧ startswith nl.2 (py "QSO:") = true
               ∧ 11 ≤ length (split nl.2) ∧ split nl.2 !! 9 = Some c).
    { intros found Hno Hf c. rewrite Hf. split.
      - intros [H | (nl & Hin & H)]; [by left|].
        right. exists nl. split; [by right | done].
      - intros [H | (nl & Hin & Hq & Hlen & Hc)]; [by left|].
        apply elem_of_cons in Hin as [-> | Hin].
        + cbn [snd] in Hq, Hlen. destruct Hno as [Hno | Hno]; [congruence | lia].
        + right. by exists nl. }
    destruct (startswith line (py "QSO:")) eqn:Eq.
    2:{ destruct (IH callsigns) as (found & -> & Hf).
        exists found. split; [done|]. apply Hskip; [by left | done]. }
    destruct (Nat.leb_spec 11 (length (split line))) as [Hlen | Hlen].
    2:{ destruct (IH callsigns) as (found & -> & Hf).
        exists found. split; [done|]. apply Hskip; [by right | done]. }
    unfold index.
    destruct (split line !! 9) as [w|] eqn:Ew.
    2:{ apply lookup_ge_None in Ew. lia. }
    cbn. destruct (IH (callsigns ∪ {[w]})) as (found & -> & Hf).
    exists found. split; [done|]. intros c. rewrite Hf, elem_of_union,
      elem_of_singleton. split.
    + intros [[H | ->] | (nl & Hin & H)].
      * by left.
      * right. exists (n, line). split; [by left | done].
      * right. exists nl. split; [by right | done].
    + intros [H | (nl & Hin & Hq & Hl & Hc)]; [by left; left|].
      apply elem_of_cons in Hin as [-> | Hin].
      * cbn [snd] in Hc. left. right. congruence.
      * right. by exists nl.
Qed.

Lemma cabrillo_callsigns_spec (lines : list (list N)) :
  ∃ found, cabrillo_callsigns lines = Ok found
    ∧ ∀ c, c ∈ found ↔
           ∃ j line, lines !! j = Some line
                     ∧ startswith line (py "QSO:") = true
                     ∧ 11 ≤ length (split line)
                     ∧ split line !! 9 = Some c.
Proof.
  unfold cabrillo_callsigns.
  destruct (callsigns_loop_spec (enumerate lines 1) ∅) as (found & -> & Hf).
  exists found. split; [done|]. intros c. rewrite Hf. split.
  - intros [H%elem_of_empty | ([n line] & Hin & H)]; [done|].
    apply elem_of_enumerate in Hin as (j & _ & Hj). by exists j, line.
  - intros (j & line & Hj & H). right. exists (1 + j, line).
    split; [|done]. apply elem_of_enumerate. by exists j.
Qed.


Lemma qualifying_from_lstrip (k : nat) (lines : list (list N)) :
  qualifying_from k (lstrip <$> lines) = qualifying_from k lines.
Proof.
  revert k. induction lines as [|line lines IH]; intros k; [done|].
  cbn [fmap list_fmap]. rewrite !qualifying_from_cons, IH.
  unfold strip. by rewrite lstrip_idem.
Qed.

(** On a line that both tools read, they agree on the station worked: the
    callsign the checker collects from it is the [other_call] field the
    parser of the diff analyzer gives for it. *)
Theorem collected_callsign_is_other_call
    (lines : list (list N)) (j : nat) (line : list N)
    (d : list (list N * list N)) :
  lines !! j = Some line →
  startswith line (py "QSO:") = true →
  parse_qso line = Ok (Some d) →
  ∃ found c, cabrillo_callsigns lines = Ok found
             ∧ getitem d (py "other_call") = Ok c
             ∧ c ∈ found.
Proof.
  intros Hj Hq Hp.
  destruct (cabrillo_callsigns_spec lines) as (found & Hfound & Hf).
  rewrite parse_qso_fields in Hp. unfold fields_of in Hp.
  case_bool_decide as Hlen; [|done].
  cbn [fmap option_fmap option_map] in Hp.
  assert (d = zip field_names (take 12 (drop 1 (split line)))) as ->
    by congruence. clear Hp.
  destruct (split line !! 9) as [c|] eqn:Ec.
  2:{ apply lookup_ge_None in Ec. lia. }
  exists found, c. split; [done|]. split.
  - clear Hf Hfound. generalize dependent (split line). intros parts Hlen Ec.
    do 13 (destruct parts as [|? parts]; [cbn in Hlen; lia|]).
    cbn in Ec. injection Ec as ->. reflexivity.
  - apply Hf. exists j, line. repeat split; [done..|lia|done].
Qed.

Lemma collected_callsign_is_other_call_witness :
  ∃ found c,
    cabrillo_callsigns [py "START-OF-LOG: 3.0"; example_rev0] = Ok found
    ∧ getitem (zip field_names (take 12 (drop 1 (split example_rev0))))
              (py "other_call") = Ok c
    ∧ c ∈ found.
Proof.
  apply (collected_callsign_is_other_call _ 1 example_rev0).
  - reflexivity.
  - vm_compute. reflexivity.
  - vm_compute. reflexivity.
Defined.

(** Indentation hides a contact from the checker but not from the diff
    analyzer: from a log whose lines all begin with whitespace the checker
    collects no callsign, while the extractor returns the records of the
    same log without the indentation. *)
Theorem indented_log_hides_callsigns
    (fs : list N → option (list (list N))) (filename : list N)
    (lines : list (list N)) :
  fs filename = Some lines →
  forallb indented lines = true →
  cabrillo_callsigns lines = Ok ∅
  ∧ extract_qsos fs filename = Ok (qualifying (lstrip <$> lines)).
Proof.
  intros Hfs Hind. split.
  - clear Hfs. unfold cabrillo_callsigns. generalize 1 (∅ : gset (list N)).
    induction lines as [|line lines IH]; intros k acc; [done|].
    cbn in Hind. apply andb_true_iff in Hind as [Hl Hind].
    cbn [enumerate callsigns_loop].
    destruct line as [|c line]; [done|]. cbn in Hl.
    assert (startswith (c :: line) (py "QSO:") = false) as ->.
    { change (py "QSO:") with (81%N :: py "SO:"). cbn [startswith].
      destruct (N.eqb_spec 81 c) as [<-|]; [|done].
      vm_compute in Hl. done. }
    by apply IH.
  - rewrite (extract_qsos_readable _ _ _ Hfs). f_equal.
    symmetry. apply (qualifying_from_lstrip 1 lines).
Qed.

Lemma indented_log_hides_callsigns_witness :
  cabrillo_callsigns [py "  " ++ example_rev0] = Ok ∅
  ∧ extract_qsos (λ _, Some [py "  " ++ example_rev0]) (py "rev_0.log")
    = Ok (qualifying (lstrip <$> [py "  " ++ example_rev0])).
Proof.
  apply indented_log_hides_callsigns.
  - reflexivity.
  - vm_compute. reflexivity.
Defined.

(** The two tools ask for different numbers of tokens: a contact line with
    11 or 12 tokens gives its tenth token to the checker as a callsign, and
    the parser of the diff analyzer returns [None] for it. *)
Theorem short_contact_line_collected_not_parsed (line : list N) :
  startswith line (py "QSO:") = true →
  11 ≤ length (split line) →
  length (split line) < 13 →
  parse_qso line = Ok None
  ∧ ∃ c, split line !! 9 = Some c ∧ cabrillo_callsigns [line] = Ok {[ c ]}.
Proof.
  intros Hq H11 H13. split.
  - rewrite parse_qso_fields. unfold fields_of.
    by rewrite bool_decide_eq_false_2 by lia.
  - destruct (split line !! 9) as [c|] eqn:Ec.
    2:{ apply lookup_ge_None in Ec. lia. }
    exists c. split; [done|].
    unfold cabrillo_callsigns. cbn [enumerate callsigns_loop].
    rewrite Hq, split_strip, (proj2 (Nat.leb_le _ _) H11).
    unfold index. rewrite Ec. cbn. f_equal. apply union_empty_l_L.
Qed.

Lemma short_contact_line_collected_not_parsed_witness :
  parse_qso (py "QSO: 7000 CW 2024-01-15 1200 LB4UH 599 001 14 LA5XX 599 002")
  = Ok None
  ∧ ∃ c,
      split (py "QSO: 7000 CW 2024-01-15 1200 LB4UH 599 001 14 LA5XX 599 002")
        !! 9 = Some c
      ∧ cabrillo_callsigns
          [py "QSO: 7000 CW 2024-01-15 1200 LB4UH 599 001 14 LA5XX 599 002"]
        = Ok {[ c ]}.
Proof.
  apply short_contact_line_collected_not_parsed.
  - vm_compute. reflexivity.
  - vm_compute. lia.
  - vm_compute. lia.
Defined.

(** ** The callsign checker: cleaning a callsign *)

Lemma alnum_run_all (suf : list N) :
  forallb is_upper_alnum suf = true → alnum_run suf = (suf, []).
Proof.
  induction suf as [|c suf IH]; [done|].
  cbn. intros [-> H]%andb_true_iff. by rewrite IH.
Qed.

Lemma alnum_run_spec (s : list N) :
  s = (alnum_run s).1 ++ (alnum_run s).2
  ∧ forallb is_upper_alnum (alnum_run s).1 = true.
Proof.
  induction s as [|c s [IH1 IH2]]; [done|].
  cbn. destruct (is_upper_alnum c) eqn:E; [|done].
  destruct (alnum_run s) as [run rest]. cbn in *.
  rewrite E, IH2. split; [by f_equal | done].
Qed.

Lemma alnum_run_slash (x y : list N) :
  ∃ x2, (alnum_run (x ++ 47%N :: y)).2 = x2 ++ 47%N :: y.
Proof.
  induction x as [|c x [x2 IH]].
  - by exists [].
  - cbn. destruct (is_upper_alnum c).
    + destruct (alnum_run (x ++ 47%N :: y)) as [run rest]. by exists x2.
    + by exists (c :: x).
Qed.

Lemma re_sub_suffix_removes (base suf : list N) :
  suf ≠ [] → forallb is_upper_alnum suf = true →
  re_sub_suffix (base ++ 47%N :: suf) = base.
Proof.
  intros Hne Hall. induction base as [|c base IH].
  - cbn. rewrite (alnum_run_all suf Hall).
    rewrite bool_decide_eq_false_2 by done. done.
  - cbn [app re_sub_suffix].
    destruct (alnum_run_slash base suf) as [x2 Hx].
    destruct (alnum_run (base ++ 47%N :: suf)) as [run rest]. cbn in Hx.
    assert (at_dollar rest = false) as ->.
    { rewrite Hx. destruct x2 as [|? [|? ?]], suf as [|? ?]; done. }
    rewrite andb_false_r. by rewrite IH.
Qed.

Lemma re_sub_suffix_cases (s : list N) :
  last s ≠ Some 10%N →
  re_sub_suffix s = s
  ∨ ∃ base suf, s = base ++ 47%N :: suf ∧ suf ≠ []
                ∧ forallb is_upper_alnum suf = true
                ∧ re_sub_suffix s = base.
Proof.
  induction s as [|c s IH]; intros Hlast; [by left|].
  cbn [re_sub_suffix]. destruct (alnum_run_spec s) as [Hs Hall].
  destruct (alnum_run s) as [run rest]. cbn in Hs, Hall.
  destruct ((c =? 47)%N && negb (bool_decide (run = [])) && at_dollar rest)
    eqn:Ematch.
  - apply andb_true_iff in Ematch as [[Hc Hrun]%andb_true_iff Hend].
    apply N.eqb_eq in Hc as ->.
    apply negb_true_iff, bool_decide_eq_false in Hrun.
    destruct rest as [|r [|? ?]]; [|cbn in Hend|done].
    + right. exists [], run. rewrite app_nil_r in Hs. by subst s.
    + apply N.eqb_eq in Hend as ->. exfalso. apply Hlast.
      rewrite Hs. change (47%N :: run ++ [10%N])
        with ((47%N :: run) ++ [10%N]). apply last_snoc.
  - destruct IH as [IH | (base & suf & -> & Hne & Hsuf & IH)].
    + intros E. apply Hlast. destruct s; [done|]. exact E.
    + left. by rewrite IH.
    + right. exists (c :: base), suf. by rewrite IH.
Qed.

Lemma head_lstrip (s : list N) (c : N) :
  head (lstrip s) = Some c → isspace c = false.
Proof.
  induction s as [|x s IH]; [done|].
  cbn. destruct (isspace x) eqn:E; [done|]. cbn. by intros [= <-].
Qed.

Lemma last_rev {A} (l : list A) : last (rev l) = head l.
Proof.
  destruct l as [|x l]; [done|]. cbn. apply last_snoc.
Qed.

Lemma last_strip (s : list N) (c : N) :
  last (strip s) = Some c → isspace c = false.
Proof.
  unfold strip, rstrip. rewrite last_rev. apply head_lstrip.
Qed.

(** What cleaning a callsign does.  The callsign is upper-cased and
    stripped; when the result ends with a slash followed by one or more
    characters of [A-Z0-9], that last slash and what follows are removed,
    and nothing else; otherwise the upper-cased, stripped callsign is
    returned as it is. *)
Theorem clean_call_cases (to_upper_full : N → list N) (callsign : list N) :
  (∃ base suf,
      strip (upper to_upper_full callsign) = base ++ py "/" ++ suf
      ∧ suf ≠ [] ∧ forallb is_upper_alnum suf = true
      ∧ clean_call to_upper_full callsign = base)
  ∨ ((∀ base suf,
        strip (upper to_upper_full callsign) = base ++ py "/" ++ suf →
        suf = [] ∨ forallb is_upper_alnum suf = false)
     ∧ clean_call to_upper_full callsign
       = strip (upper to_upper_full callsign)).
Proof.
  unfold clean_call. change (py "/") with [47%N]. cbn [app].
  set (s := strip (upper to_upper_full callsign)).
  destruct (re_sub_suffix_cases s) as [Hkeep | (base & suf & H)].
  - intros E. apply last_strip in E. done.
  - right. split; [|done]. intros base suf Hs.
    destruct suf as [|x suf]; [by left|]. right.
    destruct (forallb is_upper_alnum (x :: suf)) eqn:Hall; [|done].
    exfalso. rewrite Hs, re_sub_suffix_removes in Hkeep by done.
    apply (f_equal (@length N)) in Hkeep.
    rewrite length_app in Hkeep. cbn in Hkeep. lia.
  - left. by exists base, suf.
Qed.
